(** * A model of lifeline-rs: the type-erased bus registry, the channel
    contract, the tokio broadcast receiver and the cancellable task
    wrapper. *)

From Stdlib Require Import List Lia.
From stdpp Require Import base gmap sets.

Import ListNotations.

(** ** Errors and results (src/error.rs) *)

(** [TypeId] of a message or resource type. *)
Abbreviation TypeId := nat.

(** [Link] *)
Inductive Link := LinkTx | LinkRx | LinkBoth.

(** [TakeChannelError] (the bus and message names are left out). *)
Inductive TakeChannelError :=
  | PartialTake (link : Link)
  | AlreadyLinked
  | AlreadyTaken (link : Link).

(** [AlreadyLinkedError] *)
Inductive AlreadyLinkedError := AlreadyLinkedErr.

(** [TakeResourceError] *)
Inductive TakeResourceError := Uninitialized | Taken.

(** Rust's [Result]. *)
Inductive result (T E : Type) := Ok (t : T) | Err (e : E).
Arguments Ok {T E} t.
Arguments Err {T E} e.

(** ** The [Storage] trait (src/storage.rs) *)

(** How an implementor of [Storage] defines [take_or_clone]: through
    [take_slot] ([impl_storage_take!], [impl_channel_take!]) or through
    [clone_slot] ([impl_storage_clone!], [impl_channel_clone!]). *)
Inductive Storage := TakeStorage | CloneStorage.

Section StorageTrait.
Context {V : Type}.

(** A [&mut Option<Self>] argument is modelled by returning the new
    contents of the option next to the result: [(returned, slot)]. *)

(** [clone_slot]: [res.as_ref().map(|t| t.clone())]; a clone is the
    same logical endpoint. *)
Definition clone_slot (res : option V) : option V * option V := (res, res).

(** [take_slot]: [res.take()]. *)
Definition take_slot (res : option V) : option V * option V := (res, None).

Definition take_or_clone (s : Storage) (res : option V) : option V * option V :=
  match s with
  | TakeStorage => take_slot res
  | CloneStorage => clone_slot res
  end.
End StorageTrait.

(** ** The [Channel] trait (src/channel.rs) *)

Record Chan (V : Type) := {
  (** [fn channel(capacity: usize) -> (Self::Tx, Self::Rx)] *)
  channel : nat -> V * V;
  (** [fn default_capacity() -> usize] *)
  default_capacity : nat;
  (** [fn clone_tx(tx: &mut Option<Self::Tx>) -> Option<Self::Tx>] *)
  chan_clone_tx : option V -> option V * option V;
  (** [fn clone_rx(rx: &mut Option<Self::Rx>, tx: Option<&Self::Tx>) -> Option<Self::Rx>] *)
  chan_clone_rx : option V -> option V -> option V * option V
}.
Arguments channel {V} _ _.
Arguments default_capacity {V} _.
Arguments chan_clone_tx {V} _ _.
Arguments chan_clone_rx {V} _ _ _.

Section ChannelDefaults.
Context {V : Type}.

(** The provided [clone_tx]: [Self::Tx::take_or_clone(tx)]. *)
Definition default_clone_tx (txs : Storage) (tx : option V) : option V * option V :=
  take_or_clone txs tx.

(** The provided [clone_rx]: [Self::Rx::take_or_clone(rx)], ignoring [tx]. *)
Definition default_clone_rx (rxs : Storage) (rx : option V) (_tx : option V)
  : option V * option V :=
  take_or_clone rxs rx.
End ChannelDefaults.

(** ** The tokio channel implementations (src/channel/tokio.rs).
    The library constructor [mk] and [subscribe] are the tokio functions. *)
Section TokioChannels.
Context {V : Type}.

(** [impl Channel for mpsc::Sender<T>]: Tx is cloned, Rx is taken. *)
Definition mpsc_chan (mk : nat -> V * V) : Chan V := {|
  channel := mk;
  default_capacity := 16;
  chan_clone_tx := default_clone_tx CloneStorage;
  chan_clone_rx := default_clone_rx TakeStorage |}.

(** [impl Channel for broadcast::Sender<T>]: Tx is cloned, and [clone_rx]
    is [rx.take().or_else(|| tx.map(|tx| tx.subscribe()))]. *)
Definition broadcast_clone_rx (subscribe : V -> V) (rx : option V) (tx : option V)
  : option V * option V :=
  match rx with
  | Some r => (Some r, None)
  | None => (option_map subscribe tx, None)
  end.

Definition broadcast_chan (mk : nat -> V * V) (subscribe : V -> V) : Chan V := {|
  channel := mk;
  default_capacity := 16;
  chan_clone_tx := default_clone_tx CloneStorage;
  chan_clone_rx := broadcast_clone_rx subscribe |}.

(** [impl Channel for oneshot::Sender<T>]: both ends are taken. *)
Definition oneshot_chan (mk : nat -> V * V) : Chan V := {|
  channel := mk;
  default_capacity := 1;
  chan_clone_tx := default_clone_tx TakeStorage;
  chan_clone_rx := default_clone_rx TakeStorage |}.

(** [impl Channel for watch::Sender<T>]: Tx is taken, Rx is cloned. *)
Definition watch_chan (mk : nat -> V * V) : Chan V := {|
  channel := mk;
  default_capacity := 1;
  chan_clone_tx := default_clone_tx TakeStorage;
  chan_clone_rx := default_clone_rx CloneStorage |}.
End TokioChannels.

(** ** The registry state (src/dyn_bus/storage.rs, [DynBusState]).
    A [BusSlot] is its boxed value, an [option V]: the [name] it also holds
    is only used by [Debug]. All endpoint and resource values share one
    type [V]; the [downcast] of the source always succeeds. *)
Record DynBusState (V : Type) := {
  channels : gset TypeId;
  capacity : gmap TypeId nat;
  tx : gmap TypeId (option V);
  rx : gmap TypeId (option V);
  resources : gmap TypeId (option V)
}.
Arguments channels {V} _.
Arguments capacity {V} _.
Arguments tx {V} _.
Arguments rx {V} _.
Arguments resources {V} _.

(** [DynBusState::default()] *)
Definition state_default {V : Type} : DynBusState V := {|
  channels := ∅; capacity := ∅; tx := ∅; rx := ∅; resources := ∅ |}.

Section StateUpdates.
Context {V : Type}.

Definition set_channels (c : gset TypeId) (s : DynBusState V) : DynBusState V :=
  {| channels := c; capacity := capacity s; tx := tx s; rx := rx s;
     resources := resources s |}.
Definition set_capacity_map (c : gmap TypeId nat) (s : DynBusState V) : DynBusState V :=
  {| channels := channels s; capacity := c; tx := tx s; rx := rx s;
     resources := resources s |}.
Definition set_tx (m : gmap TypeId (option V)) (s : DynBusState V) : DynBusState V :=
  {| channels := channels s; capacity := capacity s; tx := m; rx := rx s;
     resources := resources s |}.
Definition set_rx (m : gmap TypeId (option V)) (s : DynBusState V) : DynBusState V :=
  {| channels := channels s; capacity := capacity s; tx := tx s; rx := m;
     resources := resources s |}.
Definition set_resources (m : gmap TypeId (option V)) (s : DynBusState V)
  : DynBusState V :=
  {| channels := channels s; capacity := capacity s; tx := tx s; rx := rx s;
     resources := m |}.
End StateUpdates.

(** ** [DynBusStorage] operations. Each takes the state behind the
    [RwLock] and returns its result with the new state. The bus type fixes,
    for each message identity, its [Message::Channel] ([msg_channel]) and,
    for each resource identity, its [Storage] implementation ([res_storage]). *)
Module DynBusStorage.
Section Ops.
Context {V : Type}.
Variable msg_channel : TypeId -> Chan V.
Variable res_storage : TypeId -> Storage.

(** [try_lock]: [None] if [channels] holds [id] under the read lock, or
    again under the write lock. *)
Definition try_lock (id : TypeId) (st : DynBusState V) : option (DynBusState V) :=
  if decide (id ∈ channels st) then None
  else if decide (id ∈ channels st) then None
  else Some st.

(** [link_channel::<Msg, Bus>()] *)
Definition link_channel (id : TypeId) (st : DynBusState V) : DynBusState V :=
  match try_lock id st with
  | Some state =>
      let cap := default (default_capacity (msg_channel id)) (capacity state !! id) in
      let '(t, r) := channel (msg_channel id) cap in
      let state := set_rx (<[id := Some r]> (rx state)) state in
      let state := set_tx (<[id := Some t]> (tx state)) state in
      set_channels ({[id]} ∪ channels state) state
  | None => st
  end.

(** [clone_rx::<Msg, Bus>()] *)
Definition clone_rx (id : TypeId) (st : DynBusState V)
  : result V TakeChannelError * DynBusState V :=
  let state := link_channel id st in
  (* [tx.get(&id).map(|slot| slot.get_tx()).flatten()] *)
  let txv := match tx state !! id with Some slot => slot | None => None end in
  match rx state !! id with
  | None => (Err (PartialTake LinkRx), state)
  | Some slot =>
      (* [BusSlot::clone_rx]: take the value, call [Chan::clone_rx], put back *)
      let '(cloned, slot') := chan_clone_rx (msg_channel id) slot txv in
      let state := set_rx (<[id := slot']> (rx state)) state in
      match cloned with
      | Some v => (Ok v, state)
      | None => (Err (AlreadyTaken LinkTx), state)
      end
  end.

(** [clone_tx::<Msg, Bus>()] *)
Definition clone_tx (id : TypeId) (st : DynBusState V)
  : result V TakeChannelError * DynBusState V :=
  let state := link_channel id st in
  match tx state !! id with
  | None => (Err (PartialTake LinkTx), state)
  | Some slot =>
      let '(cloned, slot') := chan_clone_tx (msg_channel id) slot in
      let state := set_tx (<[id := slot']> (tx state)) state in
      match cloned with
      | Some v => (Ok v, state)
      | None => (Err (AlreadyTaken LinkTx), state)
      end
  end.

(** [clone_resource::<Res>()] *)
Definition clone_resource (id : TypeId) (st : DynBusState V)
  : result V TakeResourceError * DynBusState V :=
  match resources st !! id with
  | None => (Err Uninitialized, st)
  | Some slot =>
      let '(cloned, slot') := take_or_clone (res_storage id) slot in
      let state := set_resources (<[id := slot']> (resources st)) st in
      match cloned with
      | Some v => (Ok v, state)
      | None => (Err Taken, state)
      end
  end.

(** [store_resource::<Res, Bus>(value)]: an empty slot is inserted when
    missing, then [BusSlot::put] overwrites its value. *)
Definition store_resource (id : TypeId) (value : V) (st : DynBusState V)
  : DynBusState V :=
  let res := if decide (is_Some (resources st !! id)) then resources st
             else <[id := None]> (resources st) in
  set_resources (<[id := Some value]> res) st.

(** [store_channel::<Msg, Chan, Bus>(rx, tx)] *)
Definition store_channel (id : TypeId) (r t : option V) (st : DynBusState V)
  : result unit AlreadyLinkedError * DynBusState V :=
  match r, t with
  | None, None => (Ok tt, st)
  | _, _ =>
      if decide (id ∈ channels st) then (Err AlreadyLinkedErr, st)
      else
        let state := set_channels ({[id]} ∪ channels st) st in
        let state := set_tx (<[id := t]> (tx state)) state in
        (Ok tt, set_rx (<[id := r]> (rx state)) state)
  end.

(** [capacity::<Msg>(capacity)], named [set_capacity] here because [capacity]
    is the field of [DynBusState]: only the [capacity] map is consulted. *)
Definition set_capacity (id : TypeId) (cap : nat) (st : DynBusState V)
  : result unit AlreadyLinkedError * DynBusState V :=
  if decide (is_Some (capacity st !! id)) then (Err AlreadyLinkedErr, st)
  else (Ok tt, set_capacity_map (<[id := cap]> (capacity st)) st).
(** [take_resource::<Res, Source, Target>(other)], called on the target
    bus with the source bus: [Err(taken)] if the target already has a slot
    for [id]; otherwise [clone_resource] on the source ([?] propagates its
    error), and the value is stored in a new slot of the target. Returns the
    result, the target state and the source state. *)
Definition take_resource (id : TypeId) (target source : DynBusState V)
  : result unit TakeResourceError * DynBusState V * DynBusState V :=
  if decide (is_Some (resources target !! id)) then (Err Taken, target, source)
  else
    match clone_resource id source with
    | (Err e, source') => (Err e, target, source')
    | (Ok r, source') =>
        (Ok tt, set_resources (<[id := Some r]> (resources target)) target, source')
    end.
End Ops.
End DynBusStorage.

(** ** The [Bus] and [DynBus] implementations of a [lifeline_bus!] bus
    (src/dyn_bus.rs, src/dyn_bus/macros.rs). The [LifelineReceiver] and
    [LifelineSender] wrappers hold the endpoint and a [log] flag set to
    false; they are left out. *)
Section BusImpl.
Context {V : Type}.
Variable msg_channel : TypeId -> Chan V.

(** [Bus::rx]: [link_channel], then [clone_rx]. *)
Definition bus_rx (id : TypeId) (st : DynBusState V)
  : result V TakeChannelError * DynBusState V :=
  DynBusStorage.clone_rx msg_channel id (DynBusStorage.link_channel msg_channel id st).

(** [Bus::tx]: [link_channel], then [clone_tx]. *)
Definition bus_tx (id : TypeId) (st : DynBusState V)
  : result V TakeChannelError * DynBusState V :=
  DynBusStorage.clone_tx msg_channel id (DynBusStorage.link_channel msg_channel id st).

(** [DynBus::store_rx]: [store_channel(Some(rx), None)]. *)
Definition store_rx (id : TypeId) (r : V) (st : DynBusState V)
  : result unit AlreadyLinkedError * DynBusState V :=
  DynBusStorage.store_channel id (Some r) None st.

(** [DynBus::store_tx]: [store_channel(None, Some(tx))]. *)
Definition store_tx (id : TypeId) (t : V) (st : DynBusState V)
  : result unit AlreadyLinkedError * DynBusState V :=
  DynBusStorage.store_channel id None (Some t) st.

(** [DynBus::store_channel]: [store_channel(Some(rx), Some(tx))]. *)
Definition bus_store_channel (id : TypeId) (r t : V) (st : DynBusState V)
  : result unit AlreadyLinkedError * DynBusState V :=
  DynBusStorage.store_channel id (Some r) (Some t) st.
End BusImpl.

(** ** Sequences of registry operations *)

(** One call to a [DynBusStorage] method, with its arguments. *)
Inductive Op (V : Type) :=
  | OpLinkChannel (id : TypeId)
  | OpCloneTx (id : TypeId)
  | OpCloneRx (id : TypeId)
  | OpCloneResource (id : TypeId)
  | OpStoreResource (id : TypeId) (value : V)
  | OpStoreChannel (id : TypeId) (r t : option V)
  | OpCapacity (id : TypeId) (cap : nat).
Arguments OpLinkChannel {V} id.
Arguments OpCloneTx {V} id.
Arguments OpCloneRx {V} id.
Arguments OpCloneResource {V} id.
Arguments OpStoreResource {V} id value.
Arguments OpStoreChannel {V} id r t.
Arguments OpCapacity {V} id cap.

Section Runs.
Context {V : Type}.
Variable msg_channel : TypeId -> Chan V.
Variable res_storage : TypeId -> Storage.

(** The state after one call; its return value is dropped. *)
Definition run_op (op : Op V) (st : DynBusState V) : DynBusState V :=
  match op with
  | OpLinkChannel id => DynBusStorage.link_channel msg_channel id st
  | OpCloneTx id => (DynBusStorage.clone_tx msg_channel id st).2
  | OpCloneRx id => (DynBusStorage.clone_rx msg_channel id st).2
  | OpCloneResource id => (DynBusStorage.clone_resource res_storage id st).2
  | OpStoreResource id v => DynBusStorage.store_resource id v st
  | OpStoreChannel id r t => (DynBusStorage.store_channel id r t st).2
  | OpCapacity id n => (DynBusStorage.set_capacity id n st).2
  end.

Fixpoint run_ops (ops : list (Op V)) (st : DynBusState V) : DynBusState V :=
  match ops with
  | [] => st
  | op :: ops' => run_ops ops' (run_op op st)
  end.

(** The registry invariant: a linked identity has a (possibly drained)
    slot in both [tx] and [rx]. *)
Definition wf (st : DynBusState V) : Prop :=
  ∀ id, id ∈ channels st -> is_Some (tx st !! id) /\ is_Some (rx st !! id).

(** The two endpoint halves, and the acquire operation of each. *)
Inductive Half := HalfTx | HalfRx.

Definition acquire (h : Half) (id : TypeId) (st : DynBusState V)
  : result V TakeChannelError * DynBusState V :=
  match h with
  | HalfTx => DynBusStorage.clone_tx msg_channel id st
  | HalfRx => DynBusStorage.clone_rx msg_channel id st
  end.

Definition slot_of (h : Half) (st : DynBusState V) : gmap TypeId (option V) :=
  match h with HalfTx => tx st | HalfRx => rx st end.

(** The half of [id]'s channel uses the provided [Channel] method, with
    the given [Storage] implementation for its endpoint type. *)
Definition half_uses (h : Half) (id : TypeId) (s : Storage) : Prop :=
  match h with
  | HalfTx => chan_clone_tx (msg_channel id) = default_clone_tx s
  | HalfRx => chan_clone_rx (msg_channel id) = default_clone_rx s
  end.

(** [n] acquisitions of one half in a row. *)
Fixpoint acquire_n (n : nat) (h : Half) (id : TypeId) (st : DynBusState V)
  : list (result V TakeChannelError) * DynBusState V :=
  match n with
  | 0 => ([], st)
  | S n' =>
      let '(r, st') := acquire h id st in
      let '(rs, st'') := acquire_n n' h id st' in
      (r :: rs, st'')
  end.
End Runs.

(** ** The unified receive of [broadcast::Receiver] (src/channel/tokio.rs) *)

(** [broadcast::RecvError] *)
Inductive RecvError := Closed | Lagged (n : nat).

Section BroadcastRecv.
Context {T : Type}.

(** [impl Receiver<T> for broadcast::Receiver<T>]: [recv] loops over
    the outcomes of the successive [broadcast::Receiver::recv(self).await]
    calls: [Ok(t)] returns [Some(t)], [Closed] returns [None], [Lagged]
    continues the loop. [None] here means the loop is still awaiting
    (the given outcomes ran out); otherwise the returned value and the
    outcomes left for later calls. *)
Fixpoint broadcast_recv (outcomes : list (result T RecvError))
  : option (option T * list (result T RecvError)) :=
  match outcomes with
  | [] => None
  | Ok t :: rest => Some (Some t, rest)
  | Err Closed :: rest => Some (None, rest)
  | Err (Lagged _) :: rest => broadcast_recv rest
  end.
End BroadcastRecv.

(** ** The cancellable task (src/spawn.rs) *)

(** [std::task::Poll] *)
Inductive Poll (T : Type) := Ready (t : T) | Pending.
Arguments Ready {T} t.
Arguments Pending {T}.

(** A [Waker], named by the task it wakes. *)
Abbreviation Waker := nat.

(** [LifelineInner]; an [AtomicWaker] is the waker it holds. *)
Record LifelineInner := {
  task_waker : option Waker;
  lifeline_waker : option Waker;
  complete : bool
}.

(** [LifelineInner::new()] *)
Definition lifeline_inner_new : LifelineInner := {|
  task_waker := None; lifeline_waker := None; complete := false |}.

(** Observable effects: a waker was woken, or the wrapped future was polled. *)
Inductive Event := Woken (w : Waker) | PolledInner.

(** The shared [Arc<LifelineInner>] and the effects so far. *)
Record Sched := {
  li : LifelineInner;
  events : list Event
}.

Definition set_li (i : LifelineInner) (s : Sched) : Sched :=
  {| li := i; events := events s |}.

(** [AtomicWaker::register] on [task_waker] and on [lifeline_waker]. *)
Definition register_task_waker (w : Waker) (s : Sched) : Sched :=
  set_li {| task_waker := Some w; lifeline_waker := lifeline_waker (li s);
            complete := complete (li s) |} s.
Definition register_lifeline_waker (w : Waker) (s : Sched) : Sched :=
  set_li {| task_waker := task_waker (li s); lifeline_waker := Some w;
            complete := complete (li s) |} s.

(** [AtomicWaker::wake] on [task_waker]: [if let Some(w) = self.take() { w.wake() }]. *)
Definition wake_task_waker (s : Sched) : Sched :=
  match task_waker (li s) with
  | Some w =>
      {| li := {| task_waker := None; lifeline_waker := lifeline_waker (li s);
                  complete := complete (li s) |};
         events := events s ++ [Woken w] |}
  | None => s
  end.

(** [complete.store(true)] *)
Definition store_complete (s : Sched) : Sched :=
  set_li {| task_waker := task_waker (li s); lifeline_waker := lifeline_waker (li s);
            complete := true |} s.

(** [LifelineInner::abort] *)
Definition abort (s : Sched) : Sched := wake_task_waker (store_complete s).

(** [impl Drop for Lifeline]: [self.inner.abort()]. *)
Definition lifeline_drop (s : Sched) : Sched := abort s.

(** [impl Future for Lifeline]: [poll] with the context's waker [cx]. *)
Definition lifeline_poll (cx : Waker) (s : Sched) : Poll unit * Sched :=
  if complete (li s) then (Ready tt, s)
  else
    let s := register_lifeline_waker cx s in
    if complete (li s) then (Ready tt, s) else (Pending, s).

Section LifelineFuture.
(** The wrapped future: its state, output and [poll]. *)
Context {F O : Type}.
Variable fpoll : F -> Waker -> Poll O * F.

(** [impl Future for LifelineFuture<F>]: [poll]. *)
Definition lifeline_future_poll (cx : Waker) (fut : F) (s : Sched)
  : Poll unit * F * Sched :=
  if complete (li s) then (Ready tt, fut, s)
  else
    let '(r, fut') := fpoll fut cx in
    let s := {| li := li s; events := events s ++ [PolledInner] |} in
    match r with
    | Ready _ => (Ready tt, fut', s)
    | Pending =>
        let s := register_task_waker cx s in
        if complete (li s) then (Ready tt, fut', s) else (Pending, fut', s)
    end.
End LifelineFuture.

(** [spawn_task]: a fresh [LifelineInner] shared by the wrapper and the
    returned [Lifeline]. *)
Definition spawn_sched : Sched := {| li := lifeline_inner_new; events := [] |}.

(** ** A concrete bus, used to run the operations on small inputs.
    Endpoints are numbers: the tokio constructor returns [(capacity,
    capacity + 1000)], and a broadcast subscription adds 1. Message 0 is
    carried by an mpsc channel, 1 by a broadcast channel, 2 by a oneshot
    channel and every other identity by a watch channel. Resource 0 is
    taken, the others are cloned. *)
Definition example_mk (cap : nat) : nat * nat := (cap, cap + 1000).

Definition example_bus (id : TypeId) : Chan nat :=
  match id with
  | 0 => mpsc_chan example_mk
  | 1 => broadcast_chan example_mk S
  | 2 => oneshot_chan example_mk
  | _ => watch_chan example_mk
  end.

Definition example_resources (id : TypeId) : Storage :=
  match id with 0 => TakeStorage | _ => CloneStorage end.

(** A wrapped future that completes on its first poll ([async {}]). *)
Definition ready_future_poll (fut : unit) (_ : Waker) : Poll nat * unit :=
  (Ready 0, fut).

(** A wrapped future that never completes ([std::future::pending()]). *)
Definition pending_future_poll (fut : unit) (_ : Waker) : Poll nat * unit :=
  (Pending, fut).

(** ** Registry lemmas *)
Section RegistryLemmas.
Context {V : Type}.
Variable msg_channel : TypeId -> Chan V.

Abbreviation link := (DynBusStorage.link_channel msg_channel).

Lemma try_lock_linked (id : TypeId) (st : DynBusState V) :
  id ∈ channels st -> DynBusStorage.try_lock id st = None.
Proof. intros H. unfold DynBusStorage.try_lock. by rewrite decide_True. Qed.

Lemma link_channel_linked (id : TypeId) (st : DynBusState V) :
  id ∈ channels st -> link id st = st.
Proof.
  intros H. unfold DynBusStorage.link_channel. by rewrite try_lock_linked.
Qed.

Lemma link_channel_fresh (id : TypeId) (st : DynBusState V) :
  id ∉ channels st ->
  let cap := default (default_capacity (msg_channel id)) (capacity st !! id) in
  link id st =
    {| channels := {[id]} ∪ channels st;
       capacity := capacity st;
       tx := <[id := Some (channel (msg_channel id) cap).1]> (tx st);
       rx := <[id := Some (channel (msg_channel id) cap).2]> (rx st);
       resources := resources st |}.
Proof.
  intros H cap. unfold DynBusStorage.link_channel, DynBusStorage.try_lock.
  rewrite !decide_False by done. fold cap.
  by destruct (channel (msg_channel id) cap).
Qed.

Lemma link_channel_mem (id : TypeId) (st : DynBusState V) :
  id ∈ channels (link id st).
Proof.
  destruct (decide (id ∈ channels st)) as [H|H].
  - by rewrite link_channel_linked.
  - rewrite link_channel_fresh by done. simpl. set_solver.
Qed.

Lemma link_channel_wf (id : TypeId) (st : DynBusState V) :
  wf st -> wf (link id st).
Proof.
  intros Hwf. destruct (decide (id ∈ channels st)) as [H|H].
  - by rewrite link_channel_linked.
  - rewrite link_channel_fresh by done. intros id' Hin. simpl in *.
    destruct (decide (id' = id)) as [->|Hne].
    + rewrite !lookup_insert_eq. split; eauto.
    + rewrite !lookup_insert_ne by congruence.
      apply Hwf. set_solver.
Qed.

(** Any lookup in an updated slot map at [id] is still some slot. *)
Lemma insert_keeps_is_Some (m : gmap TypeId (option V)) (id id' : TypeId)
    (s : option V) :
  is_Some (m !! id') -> is_Some (<[id := s]> m !! id').
Proof.
  intros Hs. destruct (decide (id' = id)) as [->|Hne].
  - rewrite lookup_insert_eq. eauto.
  - by rewrite lookup_insert_ne by congruence.
Qed.
End RegistryLemmas.

(** ** The registry invariant *)
Section RegistryInvariant.
Context {V : Type}.
Variable msg_channel : TypeId -> Chan V.
Variable res_storage : TypeId -> Storage.

Lemma run_op_wf (op : Op V) (st : DynBusState V) :
  wf st -> wf (run_op msg_channel res_storage op st).
Proof.
  intros Hwf. destruct op as [id|id|id|id|id v|id r t|id n]; simpl.
  - by apply link_channel_wf.
  - unfold DynBusStorage.clone_tx.
    pose proof (link_channel_wf msg_channel id st Hwf) as Hl.
    destruct (tx _ !! id) as [slot|] eqn:Hs; [|done].
    destruct (chan_clone_tx _ _) as [[c|] slot']; simpl;
      intros id' Hin; destruct (Hl id' Hin);
      split; simpl; auto using insert_keeps_is_Some.
  - unfold DynBusStorage.clone_rx.
    pose proof (link_channel_wf msg_channel id st Hwf) as Hl.
    destruct (rx _ !! id) as [slot|] eqn:Hs; [|done].
    destruct (chan_clone_rx _ _ _) as [[c|] slot']; simpl;
      intros id' Hin; destruct (Hl id' Hin);
      split; simpl; auto using insert_keeps_is_Some.
  - unfold DynBusStorage.clone_resource.
    destruct (resources st !! id) as [slot|]; [|done].
    by destruct (take_or_clone _ _) as [[c|] slot'].
  - done.
  - unfold DynBusStorage.store_channel.
    destruct r, t; simpl; try done;
      (destruct (decide (id ∈ channels st)); [done|]);
      intros id' Hin; simpl in *;
      (destruct (decide (id' = id)) as [->|Hne];
       [rewrite !lookup_insert_eq; split; eauto
       |rewrite !lookup_insert_ne by congruence; apply Hwf; set_solver]).
  - unfold DynBusStorage.set_capacity.
    by destruct (decide (is_Some (capacity st !! id))).
Qed.
End RegistryInvariant.

Section RegistryRuns.
Context {V : Type}.
Variable msg_channel : TypeId -> Chan V.
Variable res_storage : TypeId -> Storage.

Lemma run_ops_wf (ops : list (Op V)) (st : DynBusState V) :
  wf st -> wf (run_ops msg_channel res_storage ops st).
Proof.
  revert st. induction ops as [|op ops IH]; intros st Hwf; simpl; [done|].
  apply IH. by apply run_op_wf.
Qed.
End RegistryRuns.

(** ** A taken endpoint stays taken *)
Section TakenSlot.
Context {V : Type}.
Variable msg_channel : TypeId -> Chan V.
Variable res_storage : TypeId -> Storage.

Abbreviation link := (DynBusStorage.link_channel msg_channel).

(** The half [h] of [id] is linked and its slot is drained. *)
Definition drained (h : Half) (id : TypeId) (st : DynBusState V) : Prop :=
  id ∈ channels st /\ slot_of h st !! id = Some None.

Lemma drained_link (h : Half) (id id' : TypeId) (st : DynBusState V) :
  drained h id st -> drained h id (link id' st).
Proof.
  intros [Hin Hs]. destruct (decide (id' ∈ channels st)) as [H|H].
  - by rewrite link_channel_linked.
  - rewrite link_channel_fresh by done.
    assert (id' ≠ id) by (intros ->; contradiction).
    split; simpl; [set_solver|].
    destruct h; simpl in *; by rewrite lookup_insert_ne by congruence.
Qed.

Lemma drained_run_op (h : Half) (id : TypeId) (op : Op V) (st : DynBusState V) :
  half_uses msg_channel h id TakeStorage ->
  drained h id st -> drained h id (run_op msg_channel res_storage op st).
Proof.
  intros Huse Hd. destruct op as [id'|id'|id'|id'|id' v|id' r t|id' n]; simpl.
  - by apply drained_link.
  - unfold DynBusStorage.clone_tx.
    pose proof (drained_link h id id' st Hd) as [Hin Hs].
    destruct (tx (link id' st) !! id') as [slot|] eqn:Hslot; [|split; done].
    destruct (chan_clone_tx (msg_channel id') slot) as [c slot'] eqn:Hc.
    assert (Hd' : drained h id (set_tx (<[id' := slot']> (tx (link id' st)))
                                   (link id' st))).
    { split; [done|]. destruct h; simpl in *; [|done].
      destruct (decide (id' = id)) as [->|Hne].
      - rewrite Hs in Hslot. injection Hslot as <-.
        rewrite Huse in Hc. injection Hc as _ <-. by rewrite lookup_insert_eq.
      - by rewrite lookup_insert_ne by congruence. }
    by destruct c.
  - unfold DynBusStorage.clone_rx.
    pose proof (drained_link h id id' st Hd) as [Hin Hs].
    destruct (rx (link id' st) !! id') as [slot|] eqn:Hslot; [|split; done].
    destruct (chan_clone_rx (msg_channel id') slot _) as [c slot'] eqn:Hc.
    assert (Hd' : drained h id (set_rx (<[id' := slot']> (rx (link id' st)))
                                   (link id' st))).
    { split; [done|]. destruct h; simpl in *; [done|].
      destruct (decide (id' = id)) as [->|Hne].
      - rewrite Hs in Hslot. injection Hslot as <-.
        rewrite Huse in Hc. injection Hc as _ <-. by rewrite lookup_insert_eq.
      - by rewrite lookup_insert_ne by congruence. }
    by destruct c.
  - unfold DynBusStorage.clone_resource. destruct Hd as [Hin Hs].
    destruct (resources st !! id') as [slot|]; [|split; done].
    destruct (take_or_clone _ _) as [[c|] slot']; split; by destruct h.
  - destruct Hd as [Hin Hs]. split; by destruct h.
  - unfold DynBusStorage.store_channel. destruct Hd as [Hin Hs].
    destruct r, t; simpl; try (split; done);
      (destruct (decide (id' ∈ channels st)) as [Hin'|Hin']; [split; done|]);
      (assert (id' ≠ id) by (intros ->; contradiction));
      split; simpl; [set_solver| |set_solver| |set_solver|];
      destruct h; simpl in *; by rewrite lookup_insert_ne by congruence.
  - unfold DynBusStorage.set_capacity. destruct Hd as [Hin Hs].
    destruct (decide (is_Some (capacity st !! id'))); split; by destruct h.
Qed.

Lemma drained_run_ops (h : Half) (id : TypeId) (ops : list (Op V))
    (st : DynBusState V) :
  half_uses msg_channel h id TakeStorage ->
  drained h id st -> drained h id (run_ops msg_channel res_storage ops st).
Proof.
  intros Huse. revert st. induction ops as [|op ops IH]; intros st Hd; [done|].
  simpl. apply IH. by apply drained_run_op.
Qed.

Lemma acquire_drained (h : Half) (id : TypeId) (st : DynBusState V) :
  half_uses msg_channel h id TakeStorage ->
  drained h id st ->
  acquire msg_channel h id st =
    (Err (AlreadyTaken LinkTx),
     match h with
     | HalfTx => set_tx (<[id := None]> (tx st)) st
     | HalfRx => set_rx (<[id := None]> (rx st)) st
     end).
Proof.
  intros Huse [Hin Hs]. destruct h; simpl in *.
  - unfold DynBusStorage.clone_tx. rewrite link_channel_linked by done.
    rewrite Hs, Huse. done.
  - unfold DynBusStorage.clone_rx. rewrite link_channel_linked by done.
    rewrite Hs, Huse. done.
Qed.
End TakenSlot.

(** ** An emptied endpoint stays empty under either storage policy *)
Section DrainedSlot.
Context {V : Type}.
Variable msg_channel : TypeId -> Chan V.
Variable res_storage : TypeId -> Storage.

Abbreviation link := (DynBusStorage.link_channel msg_channel).

(** [take_slot] and [clone_slot] both leave an empty slot empty and return
    nothing. *)
Lemma take_or_clone_None (s : Storage) :
  take_or_clone s (@None V) = (None, None).
Proof. by destruct s. Qed.

Lemma drained_run_op_any (h : Half) (id : TypeId) (s : Storage) (op : Op V)
    (st : DynBusState V) :
  half_uses msg_channel h id s ->
  drained h id st -> drained h id (run_op msg_channel res_storage op st).
Proof.
  intros Huse Hd. destruct op as [id'|id'|id'|id'|id' v|id' r t|id' n]; simpl.
  - by apply drained_link.
  - unfold DynBusStorage.clone_tx.
    pose proof (drained_link msg_channel res_storage h id id' st Hd) as [Hin Hs].
    destruct (tx (link id' st) !! id') as [slot|] eqn:Hslot; [|split; done].
    destruct (chan_clone_tx (msg_channel id') slot) as [c slot'] eqn:Hc.
    assert (Hd' : drained h id (set_tx (<[id' := slot']> (tx (link id' st)))
                                   (link id' st))).
    { split; [done|]. destruct h; simpl in *; [|done].
      destruct (decide (id' = id)) as [->|Hne].
      - rewrite Hs in Hslot. injection Hslot as <-.
        rewrite Huse in Hc. unfold default_clone_tx in Hc.
        rewrite take_or_clone_None in Hc. injection Hc as _ <-.
        by rewrite lookup_insert_eq.
      - by rewrite lookup_insert_ne by congruence. }
    by destruct c.
  - unfold DynBusStorage.clone_rx.
    pose proof (drained_link msg_channel res_storage h id id' st Hd) as [Hin Hs].
    destruct (rx (link id' st) !! id') as [slot|] eqn:Hslot; [|split; done].
    destruct (chan_clone_rx (msg_channel id') slot _) as [c slot'] eqn:Hc.
    assert (Hd' : drained h id (set_rx (<[id' := slot']> (rx (link id' st)))
                                   (link id' st))).
    { split; [done|]. destruct h; simpl in *; [done|].
      destruct (decide (id' = id)) as [->|Hne].
      - rewrite Hs in Hslot. injection Hslot as <-.
        rewrite Huse in Hc. unfold default_clone_rx in Hc.
        rewrite take_or_clone_None in Hc. injection Hc as _ <-.
        by rewrite lookup_insert_eq.
      - by rewrite lookup_insert_ne by congruence. }
    by destruct c.
  - unfold DynBusStorage.clone_resource. destruct Hd as [Hin Hs].
    destruct (resources st !! id') as [slot|]; [|split; done].
    destruct (take_or_clone _ _) as [[c|] slot']; split; by destruct h.
  - destruct Hd as [Hin Hs]. split; by destruct h.
  - unfold DynBusStorage.store_channel. destruct Hd as [Hin Hs].
    destruct r, t; simpl; try (split; done);
      (destruct (decide (id' ∈ channels st)) as [Hin'|Hin']; [split; done|]);
      (assert (id' ≠ id) by (intros ->; contradiction));
      split; simpl; [set_solver| |set_solver| |set_solver|];
      destruct h; simpl in *; by rewrite lookup_insert_ne by congruence.
  - unfold DynBusStorage.set_capacity. destruct Hd as [Hin Hs].
    destruct (decide (is_Some (capacity st !! id'))); split; by destruct h.
Qed.

Lemma drained_run_ops_any (h : Half) (id : TypeId) (s : Storage) (ops : list (Op V))
    (st : DynBusState V) :
  half_uses msg_channel h id s ->
  drained h id st -> drained h id (run_ops msg_channel res_storage ops st).
Proof.
  intros Huse. revert st. induction ops as [|op ops IH]; intros st Hd; [done|].
  simpl. apply IH. by apply (drained_run_op_any h id s).
Qed.

(** Acquiring an emptied endpoint of either policy reports [AlreadyTaken]
    (with [Link::Tx], also for the receiver half). *)
Lemma acquire_drained_any (h : Half) (id : TypeId) (s : Storage) (st : DynBusState V) :
  half_uses msg_channel h id s ->
  slot_of h (link id st) !! id = Some None ->
  (acquire msg_channel h id st).1 = Err (AlreadyTaken LinkTx).
Proof.
  intros Huse Hs. destruct h; simpl in *.
  - unfold DynBusStorage.clone_tx. cbv zeta. rewrite Hs, Huse.
    unfold default_clone_tx. by rewrite take_or_clone_None.
  - unfold DynBusStorage.clone_rx. cbv zeta. rewrite Hs, Huse.
    unfold default_clone_rx. by rewrite take_or_clone_None.
Qed.
End DrainedSlot.

(** ** Linked identities and recorded capacities are never forgotten *)
Section Monotone.
Context {V : Type}.
Variable msg_channel : TypeId -> Chan V.
Variable res_storage : TypeId -> Storage.

Abbreviation link := (DynBusStorage.link_channel msg_channel).

Lemma link_channel_channels (id id' : TypeId) (st : DynBusState V) :
  id ∈ channels st -> id ∈ channels (link id' st).
Proof.
  intros H. destruct (decide (id' ∈ channels st)).
  - by rewrite link_channel_linked.
  - rewrite link_channel_fresh by done. simpl. set_solver.
Qed.

Lemma link_channel_capacity (id' : TypeId) (st : DynBusState V) :
  capacity (link id' st) = capacity st.
Proof.
  destruct (decide (id' ∈ channels st)).
  - by rewrite link_channel_linked.
  - by rewrite link_channel_fresh.
Qed.

Lemma run_op_mono (id : TypeId) (op : Op V) (st : DynBusState V) :
  (id ∈ channels st -> id ∈ channels (run_op msg_channel res_storage op st)) /\
  (is_Some (capacity st !! id) ->
   is_Some (capacity (run_op msg_channel res_storage op st) !! id)).
Proof.
  destruct op as [id'|id'|id'|id'|id' v|id' r t|id' n]; simpl.
  - rewrite link_channel_capacity. split; [apply link_channel_channels|done].
  - unfold DynBusStorage.clone_tx.
    pose proof (link_channel_channels id id' st).
    pose proof (link_channel_capacity id' st) as Hc.
    destruct (tx (link id' st) !! id') as [slot|]; [|simpl; rewrite Hc; auto].
    destruct (chan_clone_tx _ _) as [[c|] slot']; simpl; rewrite Hc; auto.
  - unfold DynBusStorage.clone_rx.
    pose proof (link_channel_channels id id' st).
    pose proof (link_channel_capacity id' st) as Hc.
    destruct (rx (link id' st) !! id') as [slot|]; [|simpl; rewrite Hc; auto].
    destruct (chan_clone_rx _ _ _) as [[c|] slot']; simpl; rewrite Hc; auto.
  - unfold DynBusStorage.clone_resource.
    destruct (resources st !! id') as [slot|]; [|done].
    by destruct (take_or_clone _ _) as [[c|] slot'].
  - done.
  - unfold DynBusStorage.store_channel.
    destruct r, t; simpl; try done;
      (destruct (decide (id' ∈ channels st)); simpl; [done|]);
      split; [set_solver|done|set_solver|done|set_solver|done].
  - unfold DynBusStorage.set_capacity.
    destruct (decide (is_Some (capacity st !! id'))); simpl; [done|].
    split; [done|]. intros Hs.
    destruct (decide (id = id')) as [->|Hne].
    + rewrite lookup_insert_eq. eauto.
    + by rewrite lookup_insert_ne by congruence.
Qed.

Lemma run_ops_mono (id : TypeId) (ops : list (Op V)) (st : DynBusState V) :
  (id ∈ channels st -> id ∈ channels (run_ops msg_channel res_storage ops st)) /\
  (is_Some (capacity st !! id) ->
   is_Some (capacity (run_ops msg_channel res_storage ops st) !! id)).
Proof.
  revert st. induction ops as [|op ops IH]; intros st; simpl; [done|].
  destruct (run_op_mono id op st) as [H1 H2].
  destruct (IH (run_op msg_channel res_storage op st)) as [H3 H4].
  split; auto.
Qed.

(** A recorded capacity keeps its value: [capacity] inserts only when no
    capacity is recorded, and no other operation writes the map. *)
Lemma run_op_capacity_value (id : TypeId) (n : nat) (op : Op V) (st : DynBusState V) :
  capacity st !! id = Some n ->
  capacity (run_op msg_channel res_storage op st) !! id = Some n.
Proof.
  intros Hn. destruct op as [id'|id'|id'|id'|id' v|id' r t|id' m]; simpl.
  - by rewrite link_channel_capacity.
  - unfold DynBusStorage.clone_tx.
    pose proof (link_channel_capacity id' st) as Hc.
    destruct (tx (link id' st) !! id') as [slot|]; [|simpl; by rewrite Hc].
    destruct (chan_clone_tx _ _) as [[c|] slot']; simpl; by rewrite Hc.
  - unfold DynBusStorage.clone_rx.
    pose proof (link_channel_capacity id' st) as Hc.
    destruct (rx (link id' st) !! id') as [slot|]; [|simpl; by rewrite Hc].
    destruct (chan_clone_rx _ _ _) as [[c|] slot']; simpl; by rewrite Hc.
  - unfold DynBusStorage.clone_resource.
    destruct (resources st !! id') as [slot|]; [|done].
    by destruct (take_or_clone _ _) as [[c|] slot'].
  - done.
  - unfold DynBusStorage.store_channel.
    destruct r, t; simpl; try done;
      by destruct (decide (id' ∈ channels st)).
  - unfold DynBusStorage.set_capacity.
    destruct (decide (is_Some (capacity st !! id'))) as [Hs|Hs]; simpl; [done|].
    destruct (decide (id = id')) as [->|Hne].
    + exfalso. apply Hs. rewrite Hn. eauto.
    + by rewrite lookup_insert_ne by congruence.
Qed.

Lemma run_ops_capacity_value (id : TypeId) (n : nat) (ops : list (Op V))
    (st : DynBusState V) :
  capacity st !! id = Some n ->
  capacity (run_ops msg_channel res_storage ops st) !! id = Some n.
Proof.
  revert st. induction ops as [|op ops IH]; intros st Hn; simpl; [done|].
  apply IH. by apply run_op_capacity_value.
Qed.
End Monotone.

(** ** Cloned endpoints stay in their slot *)
Section ClonedSlot.
Context {V : Type}.
Variable msg_channel : TypeId -> Chan V.

Abbreviation link := (DynBusStorage.link_channel msg_channel).

Lemma acquire_clone_step (h : Half) (id : TypeId) (v : V) (st : DynBusState V) :
  half_uses msg_channel h id CloneStorage ->
  slot_of h (link id st) !! id = Some (Some v) ->
  ∃ st', acquire msg_channel h id st = (Ok v, st') /\ link id st' = st' /\
    slot_of h st' !! id = Some (Some v).
Proof.
  intros Huse Hslot. assert (Hin := link_channel_mem msg_channel id st).
  destruct h; simpl in Huse, Hslot; eexists; split.
  - simpl. unfold DynBusStorage.clone_tx. cbv zeta. rewrite Hslot, Huse.
    reflexivity.
  - split; [by apply link_channel_linked|]. simpl. by rewrite lookup_insert_eq.
  - simpl. unfold DynBusStorage.clone_rx. cbv zeta. rewrite Hslot, Huse.
    reflexivity.
  - split; [by apply link_channel_linked|]. simpl. by rewrite lookup_insert_eq.
Qed.

Lemma acquire_n_clone (h : Half) (id : TypeId) (v : V) (n : nat)
    (st : DynBusState V) :
  half_uses msg_channel h id CloneStorage ->
  link id st = st -> slot_of h st !! id = Some (Some v) ->
  (acquire_n msg_channel n h id st).1 = repeat (Ok v) n /\
  link id (acquire_n msg_channel n h id st).2 = (acquire_n msg_channel n h id st).2 /\
  slot_of h (acquire_n msg_channel n h id st).2 !! id = Some (Some v).
Proof.
  intros Huse. revert st. induction n as [|n IH]; intros st Hl Hs; [done|].
  destruct (acquire_clone_step h id v st Huse) as (st1 & Hacq & Hl1 & Hs1);
    [by rewrite Hl|].
  simpl. rewrite Hacq.
  destruct (IH st1 Hl1 Hs1) as (Hr & Hl2 & Hs2).
  destruct (acquire_n msg_channel n h id st1) as [rs st2]. simpl in *.
  by rewrite Hr.
Qed.
End ClonedSlot.

(** ** The receive loop skips lags *)
Section RecvLemmas.
Context {T : Type}.

Definition lags (ns : list nat) : list (result T RecvError) :=
  map (fun n => Err (Lagged n)) ns.

Lemma broadcast_recv_lags (ns : list nat) (l : list (result T RecvError)) :
  broadcast_recv (lags ns ++ l) = broadcast_recv l.
Proof. induction ns as [|n ns IH]; simpl; [done|]. exact IH. Qed.

Lemma broadcast_recv_shape (outs rest : list (result T RecvError)) (r : option T) :
  broadcast_recv outs = Some (r, rest) ->
  ∃ ns, outs = lags ns ++
    (match r with Some v => Ok v | None => Err Closed end) :: rest.
Proof.
  induction outs as [|o outs IH]; simpl; [discriminate|].
  destruct o as [v|[|n]].
  - intros [= <- <-]. by exists [].
  - intros [= <- <-]. by exists [].
  - intros H. destruct (IH H) as [ns ->]. by exists (n :: ns).
Qed.
End RecvLemmas.

(** ** The task wrapper never signals the handle *)
Section WrapperLemmas.
Context {F O : Type}.
Variable fpoll : F -> Waker -> Poll O * F.

(** [LifelineFuture::poll] never sets [complete], never touches
    [lifeline_waker] and wakes no waker. *)
Lemma lifeline_future_poll_never_signals (cx : Waker) (fut : F) (s : Sched) :
  let s' := (lifeline_future_poll fpoll cx fut s).2 in
  complete (li s') = complete (li s) /\
  lifeline_waker (li s') = lifeline_waker (li s) /\
  (∀ w, In (Woken w) (events s') -> In (Woken w) (events s)).
Proof.
  unfold lifeline_future_poll.
  destruct (complete (li s)) eqn:Hc; simpl; [done|].
  destruct (fpoll fut cx) as [[o|] fut']; simpl.
  - split; [done|]. split; [done|]. intros w Hw.
    apply in_app_or in Hw as [Hw|[Hw|[]]]; [done|discriminate].
  - rewrite Hc. simpl. split; [done|]. split; [done|]. intros w Hw.
    apply in_app_or in Hw as [Hw|[Hw|[]]]; [done|discriminate].
Qed.
End WrapperLemmas.

(** * The claims *)

Section RegistryClaims.
Context {V : Type}.
Variable msg_channel : TypeId -> Chan V.
Variable res_storage : TypeId -> Storage.

Abbreviation link := (DynBusStorage.link_channel msg_channel).

(** C1 (as amended): [capacity] returns [Ok] when called before the
    channel of [id] is constructed and before any other [capacity] call
    for [id]; after any sequence of operations (later [capacity] calls
    included), a channel of [id] constructed then uses that capacity; and
    every later [capacity] call for [id] returns [Err(AlreadyLinked)]. *)
Theorem set_capacity_first_call (id : TypeId) (n : nat) (st : DynBusState V)
    (Hfresh : id ∉ channels st) (Hnone : capacity st !! id = None) :
  ∃ st', DynBusStorage.set_capacity id n st = (Ok tt, st') /\
    ∀ ops : list (Op V),
      let st'' := run_ops msg_channel res_storage ops st' in
      (id ∉ channels st'' ->
       tx (link id st'') !! id = Some (Some (channel (msg_channel id) n).1) /\
       rx (link id st'') !! id = Some (Some (channel (msg_channel id) n).2)) /\
      ∀ m : nat, (DynBusStorage.set_capacity id m st'').1 = Err AlreadyLinkedErr.
Proof.
  unfold DynBusStorage.set_capacity at 1.
  rewrite Hnone, decide_False by apply is_Some_None.
  eexists. split; [reflexivity|].
  intros ops. cbv zeta.
  assert (Hcap : capacity (run_ops msg_channel res_storage ops
                   (set_capacity_map (<[id := n]> (capacity st)) st)) !! id = Some n).
  { apply run_ops_capacity_value. simpl. by rewrite lookup_insert_eq. }
  split.
  - intros Hout. rewrite link_channel_fresh by done. simpl.
    rewrite Hcap, !lookup_insert_eq. simpl. done.
  - intros m. unfold DynBusStorage.set_capacity.
    rewrite decide_True; [done|]. rewrite Hcap. eauto.
Qed.

(** C4: for a half whose endpoint type takes ([take_slot]), the first
    acquisition returns [Ok] with the endpoint stored in the slot once the
    channel is linked, and every later acquisition of that half, after any
    sequence of operations, returns [Err(AlreadyTaken)]. *)
Theorem take_policy_exclusive (h : Half) (id : TypeId) (v : V) (st : DynBusState V)
    (Huse : half_uses msg_channel h id TakeStorage)
    (Hslot : slot_of h (link id st) !! id = Some (Some v)) :
  ∃ st', acquire msg_channel h id st = (Ok v, st') /\
    ∀ ops : list (Op V),
      (acquire msg_channel h id (run_ops msg_channel res_storage ops st')).1
      = Err (AlreadyTaken LinkTx).
Proof.
  assert (Hin := link_channel_mem msg_channel id st).
  destruct h; simpl in Huse, Hslot; eexists; split.
  - simpl. unfold DynBusStorage.clone_tx. cbv zeta. rewrite Hslot, Huse.
    reflexivity.
  - intros ops. rewrite acquire_drained; [done|done|].
    apply drained_run_ops; [done|]. split; [done|]. simpl.
    by rewrite lookup_insert_eq.
  - simpl. unfold DynBusStorage.clone_rx. cbv zeta. rewrite Hslot, Huse.
    reflexivity.
  - intros ops. rewrite acquire_drained; [done|done|].
    apply drained_run_ops; [done|]. split; [done|]. simpl.
    by rewrite lookup_insert_eq.
Qed.

(** C5: [link_channel] constructs the pair of a fresh identity once,
    with the recorded or default capacity, and stores both halves; every
    later call for that identity, after any operations, finds it in
    [channels] ([try_lock] gives [None]) and leaves the state unchanged. *)
Theorem link_channel_idempotent (id : TypeId) (st : DynBusState V)
    (Hfresh : id ∉ channels st) :
  let cap := default (default_capacity (msg_channel id)) (capacity st !! id) in
  tx (link id st) !! id = Some (Some (channel (msg_channel id) cap).1) /\
  rx (link id st) !! id = Some (Some (channel (msg_channel id) cap).2) /\
  ∀ ops : list (Op V),
    let st' := run_ops msg_channel res_storage ops (link id st) in
    DynBusStorage.try_lock id st' = None /\ link id st' = st'.
Proof.
  intros cap. pose proof (link_channel_fresh msg_channel id st Hfresh) as Hl.
  split; [rewrite Hl; simpl; by rewrite lookup_insert_eq|].
  split; [rewrite Hl; simpl; by rewrite lookup_insert_eq|].
  intros ops st'.
  assert (Hin : id ∈ channels st').
  { apply (run_ops_mono msg_channel res_storage id ops).
    apply link_channel_mem. }
  split; [by apply try_lock_linked|by apply link_channel_linked].
Qed.

(** C7: for a broadcast channel, whose [clone_rx] is
    [rx.take().or_else(|| tx.map(|tx| tx.subscribe()))], acquiring the
    receiver returns [Ok] whenever the Tx slot holds a sender, also when
    the Rx slot has been emptied: the receiver is then [tx.subscribe()]. *)
Theorem broadcast_rx_from_tx (subscribe : V -> V) (id : TypeId) (t : V)
    (st : DynBusState V)
    (Hb : chan_clone_rx (msg_channel id) = broadcast_clone_rx subscribe)
    (Hwf : wf st)
    (Htx : tx (link id st) !! id = Some (Some t)) :
  ∃ r, (DynBusStorage.clone_rx msg_channel id st).1 = Ok r /\
    (rx (link id st) !! id = Some None -> r = subscribe t).
Proof.
  destruct (link_channel_wf msg_channel id st Hwf id (link_channel_mem msg_channel id st))
    as [_ [slot Hrx]].
  unfold DynBusStorage.clone_rx. cbv zeta. rewrite Htx, Hrx, Hb.
  destruct slot as [r|]; simpl; eexists; (split; [reflexivity|]); congruence.
Qed.

(** C9: for a half whose endpoint type clones ([clone_slot]), any
    number N >= 1 of acquisitions in a row all return [Ok] with the
    stored endpoint, and the slot still holds it afterwards. *)
Theorem clone_policy_available (h : Half) (id : TypeId) (v : V) (n : nat)
    (st : DynBusState V)
    (Huse : half_uses msg_channel h id CloneStorage)
    (Hslot : slot_of h (link id st) !! id = Some (Some v)) :
  (acquire_n msg_channel (S n) h id st).1 = repeat (Ok v) (S n) /\
  slot_of h (acquire_n msg_channel (S n) h id st).2 !! id = Some (Some v).
Proof.
  destruct (acquire_clone_step msg_channel h id v st Huse Hslot)
    as (st1 & Hacq & Hl1 & Hs1).
  destruct (acquire_n_clone msg_channel h id v n st1 Huse Hl1 Hs1) as (Hr & _ & Hs2).
  simpl. rewrite Hacq.
  destruct (acquire_n msg_channel n h id st1) as [rs st2]. simpl in *.
  by rewrite Hr.
Qed.

(** C10: [store_resource] returns nothing and always overwrites: after
    storing [v], from any state (a value already stored, or the slot
    taken), the slot holds [v] and [clone_resource] returns [Ok v]. *)
Theorem store_resource_overwrites (id : TypeId) (v : V) (st : DynBusState V) :
  resources (DynBusStorage.store_resource id v st) !! id = Some (Some v) /\
  (DynBusStorage.clone_resource res_storage id
     (DynBusStorage.store_resource id v st)).1 = Ok v.
Proof.
  unfold DynBusStorage.clone_resource, DynBusStorage.store_resource. simpl.
  rewrite lookup_insert_eq. split; [done|].
  by destruct (res_storage id).
Qed.
End RegistryClaims.

Section InvariantClaim.
Context {V : Type}.
Variable msg_channel : TypeId -> Chan V.
Variable res_storage : TypeId -> Storage.

(** C8: every [DynBusStorage] operation ([link_channel], [clone_tx],
    [clone_rx], [clone_resource], [store_resource], [store_channel],
    [capacity]) preserves the invariant that each identity in [channels]
    has a slot, possibly drained, in both [tx] and [rx]. *)
Theorem registry_invariant_preserved (op : Op V) (st : DynBusState V)
    (Hwf : wf st) :
  wf (run_op msg_channel res_storage op st).
Proof. by apply run_op_wf. Qed.
End InvariantClaim.

Section RecvClaim.
Context {T : Type}.

(** C6: the unified receive of a broadcast receiver returns [None] only
    when, after skipping lag notifications, the channel reports [Closed];
    it returns [Some v] exactly when, after skipping lag notifications,
    the next outcome is the message [v]. A lag never yields [None]. *)
Theorem broadcast_recv_lag_not_closed (outs rest : list (result T RecvError))
    (r : option T) (H : broadcast_recv outs = Some (r, rest)) :
  (r = None <-> ∃ ns, outs = lags ns ++ Err Closed :: rest) /\
  (∀ v, r = Some v <-> ∃ ns, outs = lags ns ++ Ok v :: rest).
Proof.
  destruct (broadcast_recv_shape outs rest r H) as [ns Hns].
  split; [split|intros v; split].
  - intros ->. by exists ns.
  - intros [ns' ->]. rewrite broadcast_recv_lags in H. simpl in H. congruence.
  - intros ->. by exists ns.
  - intros [ns' ->]. rewrite broadcast_recv_lags in H. simpl in H. congruence.
Qed.
End RecvClaim.

(** C2 (code): a task whose future completes on its first poll. The handle
    is polled first (waker 1) and registers its waker; the executor then
    polls the wrapper (waker 2), which returns [Ready] but leaves
    [complete] false and wakes nothing; the handle, polled again, is still
    [Pending]. *)
Theorem natural_completion_not_signalled :
  let '(p1, s1) := lifeline_poll 1 spawn_sched in
  let '(p2, _, s2) := lifeline_future_poll ready_future_poll 2 tt s1 in
  let '(p3, s3) := lifeline_poll 1 s2 in
  p1 = Pending /\ p2 = Ready tt /\ complete (li s2) = false /\
  events s2 = [PolledInner] /\ p3 = Pending.
Proof. vm_compute. repeat split. Qed.

Section CancelClaim.
Context {F O : Type}.
Variable fpoll : F -> Waker -> Poll O * F.

(** C3: dropping the handle stores [complete = true] and wakes the waker
    registered by the task (taking it out of the [AtomicWaker]); and a
    poll of the wrapper that finds [complete] true returns [Ready]
    without polling the wrapped future and without any other effect. *)
Theorem lifeline_drop_cancels (s s' : Sched) (cx : Waker) (fut : F)
    (Hc : complete (li s') = true) :
  complete (li (lifeline_drop s)) = true /\
  task_waker (li (lifeline_drop s)) = None /\
  events (lifeline_drop s) =
    events s ++ match task_waker (li s) with Some w => [Woken w] | None => [] end /\
  lifeline_future_poll fpoll cx fut s' = (Ready tt, fut, s').
Proof.
  unfold lifeline_drop, abort, wake_task_waker, store_complete. simpl.
  destruct (task_waker (li s)); simpl.
  - repeat split. unfold lifeline_future_poll. by rewrite Hc.
  - rewrite app_nil_r. repeat split; try done. unfold lifeline_future_poll. by rewrite Hc.
Qed.
End CancelClaim.

(** * Counterexample and witnesses, on the concrete bus [example_bus] *)

Lemma wf_state_default : wf (@state_default nat).
Proof. intros id Hin. simpl in Hin. set_solver. Qed.

(** C1 as stated fails: before the channel of message 0 is constructed, a
    second [capacity] call returns [Err(AlreadyLinked)]. *)
Lemma set_capacity_second_call_counterexample :
  let st1 := (DynBusStorage.set_capacity 0 4 (@state_default nat)).2 in
  (0 ∉ channels st1) /\ (DynBusStorage.set_capacity 0 8 st1).1 = Err AlreadyLinkedErr.
Proof. simpl. split; [set_solver|reflexivity]. Qed.

(** [capacity] consults only the [capacity] map: called after the channel
    of message 0 was constructed, with no capacity recorded, it returns [Ok]. *)
Example set_capacity_after_link :
  let st1 := DynBusStorage.link_channel example_bus 0 (@state_default nat) in
  0 ∈ channels st1 /\ (DynBusStorage.set_capacity 0 8 st1).1 = Ok tt.
Proof. simpl. split; [set_solver|reflexivity]. Qed.

Lemma set_capacity_first_call_witness :
  (0 ∉ channels (@state_default nat)) /\ capacity (@state_default nat) !! 0 = None /\
  ∃ st', DynBusStorage.set_capacity 0 4 (@state_default nat) = (Ok tt, st') /\
    tx (DynBusStorage.link_channel example_bus 0 st') !! 0 = Some (Some 4).
Proof.
  split; [set_solver|]. split; [reflexivity|].
  destruct (set_capacity_first_call example_bus example_resources 0 4 state_default)
    as (st' & H1 & H2); [set_solver|reflexivity|].
  exists st'. split; [exact H1|].
  destruct (H2 []) as [H3 _].
  assert (Hout : 0 ∉ channels (run_ops example_bus example_resources [] st')).
  { simpl in H1. injection H1 as <-. simpl. set_solver. }
  destruct (H3 Hout) as [Htx _]. exact Htx.
Defined.

Lemma lifeline_drop_cancels_witness :
  complete (li (lifeline_drop spawn_sched)) = true /\
  lifeline_future_poll ready_future_poll 2 tt (lifeline_drop spawn_sched)
  = (Ready tt, tt, lifeline_drop spawn_sched).
Proof.
  destruct (lifeline_drop_cancels ready_future_poll spawn_sched
              (lifeline_drop spawn_sched) 2 tt) as (H1 & _ & _ & H4);
    [reflexivity|].
  split; [exact H1|exact H4].
Defined.

Lemma take_policy_exclusive_witness :
  half_uses example_bus HalfRx 0 TakeStorage /\
  slot_of HalfRx (DynBusStorage.link_channel example_bus 0 (@state_default nat)) !! 0
    = Some (Some 1016) /\
  ∃ st', acquire example_bus HalfRx 0 (@state_default nat) = (Ok 1016, st').
Proof.
  split; [reflexivity|]. split; [reflexivity|].
  destruct (take_policy_exclusive example_bus example_resources HalfRx 0 1016
              state_default) as (st' & H1 & _); [reflexivity|reflexivity|].
  exists st'. exact H1.
Defined.

Lemma link_channel_idempotent_witness :
  (0 ∉ channels (@state_default nat)) /\
  tx (DynBusStorage.link_channel example_bus 0 (@state_default nat)) !! 0 = Some (Some 16).
Proof.
  split; [set_solver|].
  destruct (link_channel_idempotent example_bus example_resources 0 state_default)
    as (H1 & _ & _); [set_solver|].
  exact H1.
Defined.

Lemma broadcast_recv_lag_not_closed_witness :
  broadcast_recv [@Err nat RecvError (Lagged 3); Ok 5] = Some (Some 5, []) /\
  ∃ ns, [@Err nat RecvError (Lagged 3); Ok 5] = lags ns ++ [Ok 5].
Proof.
  split; [reflexivity|].
  destruct (broadcast_recv_lag_not_closed [Err (Lagged 3); Ok 5] [] (Some 5))
    as (_ & H2); [reflexivity|].
  apply H2. reflexivity.
Defined.

Lemma broadcast_rx_from_tx_witness :
  let st1 := (DynBusStorage.clone_rx example_bus 1 (@state_default nat)).2 in
  rx st1 !! 1 = Some None /\
  ∃ r, (DynBusStorage.clone_rx example_bus 1 st1).1 = Ok r /\ r = 17.
Proof.
  intros st1. split; [reflexivity|].
  destruct (broadcast_rx_from_tx example_bus S 1 16 st1) as (r & H1 & H2).
  - reflexivity.
  - apply (run_op_wf example_bus example_resources (OpCloneRx 1)).
    exact wf_state_default.
  - reflexivity.
  - exists r. split; [exact H1|]. apply H2. reflexivity.
Defined.

Lemma registry_invariant_preserved_witness :
  wf (@state_default nat) /\
  wf (run_op example_bus example_resources (OpLinkChannel 0) (@state_default nat)).
Proof.
  split; [exact wf_state_default|].
  apply registry_invariant_preserved. exact wf_state_default.
Defined.

Lemma clone_policy_available_witness :
  half_uses example_bus HalfTx 0 CloneStorage /\
  (acquire_n example_bus 3 HalfTx 0 (@state_default nat)).1 = repeat (Ok 16) 3.
Proof.
  split; [reflexivity|].
  destruct (clone_policy_available example_bus HalfTx 0 16 2 state_default)
    as (H1 & _); [reflexivity|reflexivity|].
  exact H1.
Defined.

(** * Further properties of the registry *)

Section RegistryExtras.
Context {V : Type}.
Variable msg_channel : TypeId -> Chan V.

Abbreviation link := (DynBusStorage.link_channel msg_channel).

Lemma clone_tx_after_link (id : TypeId) (st : DynBusState V) :
  DynBusStorage.clone_tx msg_channel id (link id st)
  = DynBusStorage.clone_tx msg_channel id st.
Proof.
  unfold DynBusStorage.clone_tx.
  rewrite (link_channel_linked msg_channel id (link id st)) by apply link_channel_mem.
  done.
Qed.

Lemma clone_rx_after_link (id : TypeId) (st : DynBusState V) :
  DynBusStorage.clone_rx msg_channel id (link id st)
  = DynBusStorage.clone_rx msg_channel id st.
Proof.
  unfold DynBusStorage.clone_rx.
  rewrite (link_channel_linked msg_channel id (link id st)) by apply link_channel_mem.
  done.
Qed.

(** [Bus::tx] and [Bus::rx] link the channel before calling [clone_tx] and
    [clone_rx], which link it again: the second link does nothing, so they
    behave exactly as [clone_tx] and [clone_rx]. *)
Theorem bus_acquire_links_once (id : TypeId) (st : DynBusState V) :
  bus_tx msg_channel id st = DynBusStorage.clone_tx msg_channel id st /\
  bus_rx msg_channel id st = DynBusStorage.clone_rx msg_channel id st.
Proof. split; [apply clone_tx_after_link|apply clone_rx_after_link]. Qed.

(** [store_channel] with at least one endpoint, for an identity that is
    already linked, returns [Err(AlreadyLinked)] and changes nothing. *)
Theorem store_channel_already_linked (id : TypeId) (r t : option V)
    (st : DynBusState V)
    (Hin : id ∈ channels st) (Hsome : is_Some r \/ is_Some t) :
  DynBusStorage.store_channel id r t st = (Err AlreadyLinkedErr, st).
Proof.
  unfold DynBusStorage.store_channel.
  destruct r, t; try (rewrite decide_True by done; done).
  destruct Hsome as [[? H]|[? H]]; discriminate.
Qed.

(** [store_rx] on an unlinked identity succeeds, and [Bus::rx] then returns
    the stored receiver (the channel is not constructed), whether the
    receiver type is taken or cloned. *)
Theorem store_rx_then_rx (id : TypeId) (r : V) (s : Storage) (st : DynBusState V)
    (Hfresh : id ∉ channels st)
    (Huse : chan_clone_rx (msg_channel id) = default_clone_rx s) :
  ∃ st', store_rx id r st = (Ok tt, st') /\ (bus_rx msg_channel id st').1 = Ok r.
Proof.
  unfold store_rx, DynBusStorage.store_channel. rewrite decide_False by done.
  eexists. split; [reflexivity|].
  unfold bus_rx. rewrite clone_rx_after_link. unfold DynBusStorage.clone_rx.
  rewrite link_channel_linked by (simpl; set_solver). simpl.
  rewrite lookup_insert_eq, Huse. by destruct s.
Qed.

(** [store_tx] on an unlinked identity succeeds, and [Bus::tx] then returns
    the stored sender, whether the sender type is taken or cloned. *)
Theorem store_tx_then_tx (id : TypeId) (t : V) (s : Storage) (st : DynBusState V)
    (Hfresh : id ∉ channels st)
    (Huse : chan_clone_tx (msg_channel id) = default_clone_tx s) :
  ∃ st', store_tx id t st = (Ok tt, st') /\ (bus_tx msg_channel id st').1 = Ok t.
Proof.
  unfold store_tx, DynBusStorage.store_channel. rewrite decide_False by done.
  eexists. split; [reflexivity|].
  unfold bus_tx. rewrite clone_tx_after_link. unfold DynBusStorage.clone_tx.
  rewrite link_channel_linked by (simpl; set_solver). simpl.
  rewrite lookup_insert_eq, Huse. by destruct s.
Qed.

(** After [store_rx] alone, no sender is ever constructed for the
    identity: after any sequence of operations, its Tx slot is still empty
    and [Bus::tx] returns [Err(AlreadyTaken)], for a taken or cloned sender
    type. *)
Theorem store_rx_then_tx_taken (res_storage : TypeId -> Storage) (id : TypeId) (r : V)
    (s : Storage) (st : DynBusState V)
    (Hfresh : id ∉ channels st)
    (Huse : chan_clone_tx (msg_channel id) = default_clone_tx s) :
  ∃ st', store_rx id r st = (Ok tt, st') /\
    ∀ ops : list (Op V),
      tx (run_ops msg_channel res_storage ops st') !! id = Some None /\
      (bus_tx msg_channel id (run_ops msg_channel res_storage ops st')).1
      = Err (AlreadyTaken LinkTx).
Proof.
  unfold store_rx, DynBusStorage.store_channel. rewrite decide_False by done.
  eexists. split; [reflexivity|]. intros ops.
  assert (Hd : drained HalfTx id (run_ops msg_channel res_storage ops
     (set_rx (<[id:=Some r]> (rx (set_tx (<[id:=None]> (tx (set_channels ({[id]} ∪ channels st) st)))
                                   (set_channels ({[id]} ∪ channels st) st))))
        (set_tx (<[id:=None]> (tx (set_channels ({[id]} ∪ channels st) st)))
           (set_channels ({[id]} ∪ channels st) st))))).
  { apply (drained_run_ops_any msg_channel res_storage HalfTx id s); [done|].
    split; simpl; [set_solver|by rewrite lookup_insert_eq]. }
  destruct Hd as [Hin Hs]. split; [done|].
  unfold bus_tx. rewrite clone_tx_after_link.
  apply (acquire_drained_any msg_channel HalfTx id s); [done|].
  simpl. by rewrite link_channel_linked.
Qed.

(** After [store_tx] alone on a broadcast message, [Bus::rx] still
    succeeds: the receiver is a subscription of the stored sender. *)
Theorem store_tx_then_broadcast_rx (id : TypeId) (t : V) (subscribe : V -> V)
    (st : DynBusState V)
    (Hfresh : id ∉ channels st)
    (Hb : chan_clone_rx (msg_channel id) = broadcast_clone_rx subscribe) :
  ∃ st', store_tx id t st = (Ok tt, st') /\
    (bus_rx msg_channel id st').1 = Ok (subscribe t).
Proof.
  unfold store_tx, DynBusStorage.store_channel. rewrite decide_False by done.
  eexists. split; [reflexivity|].
  unfold bus_rx. rewrite clone_rx_after_link. unfold DynBusStorage.clone_rx.
  rewrite link_channel_linked by (simpl; set_solver). simpl.
  rewrite lookup_insert_eq. simpl. rewrite lookup_insert_eq, Hb. done.
Qed.

(** From a state satisfying the registry invariant, [clone_tx] and
    [clone_rx] never return [PartialTake]: a linked identity always has a
    slot, so the result is [Ok] or [Err(AlreadyTaken)]; and when the
    half's endpoint (taken or cloned by the provided method) is empty, it
    is reported as [Err(AlreadyTaken)]. *)
Theorem acquire_never_partial_take (h : Half) (id : TypeId) (st : DynBusState V)
    (Hwf : wf st) :
  ((∃ v, (acquire msg_channel h id st).1 = Ok v) \/
   (acquire msg_channel h id st).1 = Err (AlreadyTaken LinkTx)) /\
  ∀ s : Storage, half_uses msg_channel h id s ->
    slot_of h (link id st) !! id = Some None ->
    (acquire msg_channel h id st).1 = Err (AlreadyTaken LinkTx).
Proof.
  split; [|intros s; apply acquire_drained_any].
  destruct (link_channel_wf msg_channel id st Hwf id (link_channel_mem msg_channel id st))
    as [[ts Htx] [rs Hrx]].
  destruct h; simpl.
  - unfold DynBusStorage.clone_tx. cbv zeta. rewrite Htx.
    destruct (chan_clone_tx _ _) as [[c|] slot']; simpl; eauto.
  - unfold DynBusStorage.clone_rx. cbv zeta. rewrite Hrx.
    destruct (chan_clone_rx _ _ _) as [[c|] slot']; simpl; eauto.
Qed.

(** Once linked, an identity stays linked, and a recorded capacity keeps
    its value (whether it was recorded before or after linking), under
    every sequence of registry operations. *)
Theorem linked_stays_linked (res_storage : TypeId -> Storage) (id : TypeId)
    (ops : list (Op V)) (st : DynBusState V) :
  (id ∈ channels st -> id ∈ channels (run_ops msg_channel res_storage ops st)) /\
  ∀ n : nat, capacity st !! id = Some n ->
    capacity (run_ops msg_channel res_storage ops st) !! id = Some n.
Proof.
  split.
  - apply (run_ops_mono msg_channel res_storage id ops st).
  - intros n. apply run_ops_capacity_value.
Qed.
End RegistryExtras.

(** * Further properties of resources *)

Section ResourceExtras.
Context {V : Type}.
Variable res_storage : TypeId -> Storage.

(** A taken resource ([impl_storage_take!]) is handed out once per store:
    after [store_resource], the first [clone_resource] returns the value and
    the next one returns [Err(Taken)]. *)
Theorem take_resource_once (id : TypeId) (v : V) (st : DynBusState V)
    (Htake : res_storage id = TakeStorage) :
  ∃ st', DynBusStorage.clone_resource res_storage id
           (DynBusStorage.store_resource id v st) = (Ok v, st') /\
    DynBusStorage.clone_resource res_storage id st' = (Err Taken, st').
Proof.
  unfold DynBusStorage.clone_resource, DynBusStorage.store_resource. simpl.
  rewrite lookup_insert_eq, Htake. simpl. eexists. split; [reflexivity|].
  simpl. rewrite lookup_insert_eq. simpl.
  unfold set_resources. simpl. by rewrite insert_insert_eq.
Qed.

(** A cloned resource ([impl_storage_clone!]) that is stored is returned by
    [clone_resource] without changing the state. *)
Theorem clone_resource_keeps_state (id : TypeId) (v : V) (st : DynBusState V)
    (Hclone : res_storage id = CloneStorage)
    (Hslot : resources st !! id = Some (Some v)) :
  DynBusStorage.clone_resource res_storage id st = (Ok v, st).
Proof.
  unfold DynBusStorage.clone_resource. rewrite Hslot, Hclone. simpl.
  unfold set_resources. rewrite insert_id by done. by destruct st.
Qed.

(** [take_resource] from a source holding the resource, into a target
    without a slot for it, succeeds: the target then holds the value, and
    the source slot is drained for a taken resource and unchanged for a
    cloned one. *)
Theorem take_resource_moves (id : TypeId) (v : V) (target source : DynBusState V)
    (Htarget : resources target !! id = None)
    (Hsource : resources source !! id = Some (Some v)) :
  ∃ target' source',
    DynBusStorage.take_resource res_storage id target source
      = (Ok tt, target', source') /\
    resources target' !! id = Some (Some v) /\
    resources source' !! id =
      Some (match res_storage id with TakeStorage => None | CloneStorage => Some v end).
Proof.
  unfold DynBusStorage.take_resource. rewrite Htarget.
  rewrite decide_False by apply is_Some_None.
  unfold DynBusStorage.clone_resource. rewrite Hsource.
  destruct (res_storage id); simpl; do 2 eexists; (split; [reflexivity|]);
    simpl; by rewrite !lookup_insert_eq.
Qed.

(** [take_resource] fails and leaves both buses unchanged when the target
    already has a slot for the resource ([Err(Taken)]), or when the source
    has none ([Err(Uninitialized)]). *)
Theorem take_resource_errors (id : TypeId) (target source : DynBusState V) :
  (is_Some (resources target !! id) ->
   DynBusStorage.take_resource res_storage id target source
   = (Err Taken, target, source)) /\
  (resources target !! id = None -> resources source !! id = None ->
   DynBusStorage.take_resource res_storage id target source
   = (Err Uninitialized, target, source)).
Proof.
  unfold DynBusStorage.take_resource. split.
  - intros H. by rewrite decide_True.
  - intros Ht Hs. rewrite Ht, decide_False by apply is_Some_None.
    unfold DynBusStorage.clone_resource. by rewrite Hs.
Qed.

(** Resource operations never touch the channel registry: [store_resource],
    [clone_resource] and [take_resource] (on the target) leave [channels],
    [capacity], [tx] and [rx] as they were. *)
Theorem resource_ops_keep_channels (id : TypeId) (v : V) (st source : DynBusState V) :
  let same (a : DynBusState V) :=
    channels a = channels st /\ capacity a = capacity st /\ tx a = tx st /\ rx a = rx st in
  same (DynBusStorage.store_resource id v st) /\
  same (DynBusStorage.clone_resource res_storage id st).2 /\
  same (DynBusStorage.take_resource res_storage id st source).1.2.
Proof.
  intros same. unfold same. split; [done|]. split.
  - unfold DynBusStorage.clone_resource.
    destruct (resources st !! id) as [slot|]; [|done].
    by destruct (take_or_clone _ _) as [[c|] slot'].
  - unfold DynBusStorage.take_resource.
    destruct (decide (is_Some (resources st !! id))); [done|].
    destruct (DynBusStorage.clone_resource res_storage id source) as [[r|e] source'];
      done.
Qed.
End ResourceExtras.

(** * Further properties of the task lifecycle *)

(** [LifelineInner::abort] twice is [abort] once: the first call takes the
    task waker out of its [AtomicWaker], so the second wakes nothing. *)
Theorem abort_idempotent (s : Sched) : abort (abort s) = abort s.
Proof.
  destruct s as [[tw lw c] ev].
  unfold abort, store_complete, wake_task_waker, set_li. simpl.
  by destruct tw.
Qed.

(** [Lifeline::poll] returns [Ready] exactly when [complete] is set;
    otherwise it registers the caller's waker in [lifeline_waker] and
    returns [Pending]. It never changes [complete] and wakes nothing. *)
Theorem lifeline_poll_spec (cx : Waker) (s : Sched) :
  let '(p, s') := lifeline_poll cx s in
  (p = Ready tt <-> complete (li s) = true) /\
  complete (li s') = complete (li s) /\ events s' = events s /\
  (complete (li s) = false -> lifeline_waker (li s') = Some cx).
Proof.
  unfold lifeline_poll, register_lifeline_waker, set_li.
  destruct (complete (li s)) eqn:Hc; simpl; rewrite ?Hc.
  - repeat split; done.
  - repeat split; done.
Qed.

Section WrapperExtras.
Context {F O : Type}.
Variable fpoll : F -> Waker -> Poll O * F.

(** A wrapper poll that finds the wrapped future pending registers the
    task's waker; dropping the handle afterwards wakes exactly that waker,
    and the next poll returns [Ready] without polling the wrapped future. *)
Theorem pending_then_drop_wakes_task (cx cx' : Waker) (fut fut' : F) (s : Sched)
    (Hc : complete (li s) = false) (Hp : fpoll fut cx = (Pending, fut')) :
  ∃ s1, lifeline_future_poll fpoll cx fut s = (Pending, fut', s1) /\
    events (lifeline_drop s1) = events s ++ [PolledInner; Woken cx] /\
    lifeline_future_poll fpoll cx' fut' (lifeline_drop s1)
      = (Ready tt, fut', lifeline_drop s1).
Proof.
  unfold lifeline_future_poll. rewrite Hc, Hp. simpl. rewrite Hc.
  eexists. split; [reflexivity|]. split.
  - simpl. by rewrite <- app_assoc.
  - reflexivity.
Qed.
End WrapperExtras.

(** * Witnesses of the further properties *)

Lemma store_channel_already_linked_witness :
  let st := DynBusStorage.link_channel example_bus 0 (@state_default nat) in
  (0 ∈ channels st) /\ DynBusStorage.store_channel 0 (Some 5) None st = (Err AlreadyLinkedErr, st).
Proof.
  intros st. split; [set_solver|].
  apply store_channel_already_linked; [set_solver|left; eexists; reflexivity].
Defined.

Lemma store_rx_then_rx_witness :
  ∃ st', store_rx 0 5 (@state_default nat) = (Ok tt, st') /\
    (bus_rx example_bus 0 st').1 = Ok 5.
Proof.
  apply (store_rx_then_rx example_bus 0 5 TakeStorage); [set_solver|reflexivity].
Defined.

Lemma store_tx_then_tx_witness :
  ∃ st', store_tx 0 5 (@state_default nat) = (Ok tt, st') /\
    (bus_tx example_bus 0 st').1 = Ok 5.
Proof.
  apply (store_tx_then_tx example_bus 0 5 CloneStorage); [set_solver|reflexivity].
Defined.

Lemma store_rx_then_tx_taken_witness :
  ∃ st', store_rx 0 5 (@state_default nat) = (Ok tt, st') /\
    (bus_tx example_bus 0
       (run_ops example_bus example_resources [OpLinkChannel 0; OpCloneTx 0] st')).1
    = Err (AlreadyTaken LinkTx).
Proof.
  destruct (store_rx_then_tx_taken example_bus example_resources 0 5 CloneStorage
              state_default) as (st' & H1 & H2); [set_solver|reflexivity|].
  exists st'. split; [exact H1|]. apply H2.
Defined.

Lemma store_tx_then_broadcast_rx_witness :
  ∃ st', store_tx 1 5 (@state_default nat) = (Ok tt, st') /\
    (bus_rx example_bus 1 st').1 = Ok 6.
Proof.
  apply (store_tx_then_broadcast_rx example_bus 1 5 S); [set_solver|reflexivity].
Defined.

Lemma acquire_never_partial_take_witness :
  let st := (DynBusStorage.clone_rx example_bus 0 (@state_default nat)).2 in
  wf st /\ rx (DynBusStorage.link_channel example_bus 0 st) !! 0 = Some None /\
  (acquire example_bus HalfRx 0 st).1 = Err (AlreadyTaken LinkTx).
Proof.
  intros st.
  assert (Hwf : wf st)
    by exact (run_op_wf example_bus example_resources (OpCloneRx 0) _ wf_state_default).
  split; [exact Hwf|]. split; [reflexivity|].
  apply (proj2 (acquire_never_partial_take example_bus HalfRx 0 st Hwf) TakeStorage);
    reflexivity.
Defined.

Lemma linked_stays_linked_witness :
  let st := (DynBusStorage.set_capacity 0 4 (@state_default nat)).2 in
  (0 ∉ channels st) /\ capacity st !! 0 = Some 4 /\
  capacity (run_ops example_bus example_resources
              [OpLinkChannel 0; OpCapacity 0 8; OpCloneTx 0] st) !! 0 = Some 4.
Proof.
  intros st. split; [set_solver|]. split; [reflexivity|].
  apply (linked_stays_linked example_bus example_resources 0). reflexivity.
Defined.

Lemma take_resource_once_witness :
  ∃ st', DynBusStorage.clone_resource example_resources 0
           (DynBusStorage.store_resource 0 7 (@state_default nat)) = (Ok 7, st') /\
    DynBusStorage.clone_resource example_resources 0 st' = (Err Taken, st').
Proof. apply take_resource_once. reflexivity. Defined.

Lemma clone_resource_keeps_state_witness :
  let st := DynBusStorage.store_resource 1 7 (@state_default nat) in
  resources st !! 1 = Some (Some 7) /\
  DynBusStorage.clone_resource example_resources 1 st = (Ok 7, st).
Proof.
  intros st. split; [reflexivity|].
  apply clone_resource_keeps_state; reflexivity.
Defined.

Lemma take_resource_moves_witness :
  ∃ target' source',
    DynBusStorage.take_resource example_resources 0 (@state_default nat)
      (DynBusStorage.store_resource 0 7 state_default) = (Ok tt, target', source') /\
    resources target' !! 0 = Some (Some 7) /\ resources source' !! 0 = Some None.
Proof. apply (take_resource_moves example_resources 0 7); reflexivity. Defined.

Lemma pending_then_drop_wakes_task_witness :
  ∃ s1, lifeline_future_poll pending_future_poll 2 tt spawn_sched = (Pending, tt, s1) /\
    events (lifeline_drop s1) = [PolledInner; Woken 2] /\
    lifeline_future_poll pending_future_poll 2 tt (lifeline_drop s1)
      = (Ready tt, tt, lifeline_drop s1).
Proof. apply (pending_then_drop_wakes_task pending_future_poll 2 2 tt tt); reflexivity. Defined.
